(** * Verification of the verification bot's core (src/index.js)

    The development embeds, from [src/index.js]:
    - the pagination button codec and its redemption handler
      ([buildUserlistPage], the button branch of [interactionCreate]);
    - the credential refresher ([refreshAllTokens]);
    - the batch loop of the [/addall] command;
    - the OAuth [/callback] route.

    JavaScript values are modelled as follows.  A string is a [string] (a
    sequence of code units below 256); [undefined] and [null] are [None].
    A number is a [JS.jsnum]: the handler only subtracts and compares
    integers, so the tracked numbers are the integers ([JS.Num z]) and
    [JS.NaN]; a string that denotes a number of another shape (fraction,
    exponent, radix prefix, Infinity) converts to [JS.Untracked], and every
    function that meets it answers [None] instead of guessing.  Integers
    up to 2^53 in magnitude are doubles themselves, which covers every
    time value of [Date.now()] and every array length. *)

From Stdlib Require Import ZArith NArith Lia Ascii String List Bool.
From stdpp Require Import base option list gmap strings fin_maps.
From Equations Require Import Equations.

Local Open Scope Z_scope.

(** ** The JavaScript primitives the program uses *)

Module JS.

(** [StrWhiteSpaceChar] restricted to code units below 256:
    TAB, LF, VT, FF, CR, SP and NBSP. *)
Definition is_whitespace (c : ascii) : bool :=
  match N_of_ascii c with
  | 9%N | 10%N | 11%N | 12%N | 13%N | 32%N | 160%N => true
  | _ => false
  end.

Fixpoint trimStart (s : string) : string :=
  match s with
  | String c s' => if is_whitespace c then trimStart s' else s
  | EmptyString => EmptyString
  end.

Fixpoint trimEnd (s : string) : string :=
  match s with
  | String c s' =>
      match trimEnd s' with
      | EmptyString => if is_whitespace c then EmptyString else String c EmptyString
      | r => String c r
      end
  | EmptyString => EmptyString
  end.

(** [String.prototype.trim] *)
Definition trim (s : string) : string := trimEnd (trimStart s).

(** [s.split(d)] for a one-character separator [d]. *)
Fixpoint split (d : ascii) (s : string) : list string :=
  match s with
  | EmptyString => [EmptyString]
  | String c s' =>
      if Ascii.eqb c d then EmptyString :: split d s'
      else match split d s' with
           | h :: t => String c h :: t
           | [] => [String c EmptyString]
           end
  end.

(** [s.startsWith(p)] *)
Definition startsWith (p s : string) : bool := String.prefix p s.

(** Truthiness of a value that is a string, [null] or [undefined]. *)
Definition truthy (v : option string) : bool :=
  match v with
  | Some EmptyString | None => false
  | Some _ => true
  end.

(** [a || b] on such values. *)
Definition or_else (a b : option string) : option string :=
  if truthy a then a else b.

(** Numbers. *)
Inductive jsnum : Type :=
| NaN
| Num (z : Z)
| Untracked.

Definition is_digit (c : ascii) : bool :=
  ((48 <=? N_of_ascii c) && (N_of_ascii c <=? 57))%N.

Definition digit_val (c : ascii) : Z := Z.of_N (N_of_ascii c) - 48.

Definition digit_char (d : Z) : ascii := ascii_of_N (Z.to_N (48 + d)).

Fixpoint all_digits (s : string) : bool :=
  match s with
  | EmptyString => true
  | String c s' => is_digit c && all_digits s'
  end.

(** Value of a run of decimal digits, most significant first. *)
Fixpoint digits_value (acc : Z) (s : string) : Z :=
  match s with
  | EmptyString => acc
  | String c s' => digits_value (acc * 10 + digit_val c) s'
  end.

(** Longest prefix of decimal digits, and what follows it. *)
Fixpoint span_digits (s : string) : string * string :=
  match s with
  | String c s' =>
      if is_digit c
      then let '(d, r) := span_digits s' in (String c d, r)
      else (EmptyString, s)
  | EmptyString => (EmptyString, EmptyString)
  end.

(** An optional sign in front of a literal: the sign (as a factor) and
    the rest. *)
Definition strip_sign (s : string) : Z * string :=
  match s with
  | String "-"%char s' => (-1, s')
  | String "+"%char s' => (1, s')
  | _ => (1, s)
  end.

(** [StrDecimalLiteral] that is an integer written in digits only. *)
Definition int_literal (s : string) : option Z :=
  let '(sg, body) := strip_sign s in
  match body with
  | EmptyString => None
  | _ => if all_digits body then Some (sg * digits_value 0 body) else None
  end.

Definition is_hex_digit (c : ascii) : bool :=
  let n := N_of_ascii c in
  (is_digit c || ((65 <=? n) && (n <=? 70)) || ((97 <=? n) && (n <=? 102)))%N.

Definition is_oct_digit (c : ascii) : bool :=
  ((48 <=? N_of_ascii c) && (N_of_ascii c <=? 55))%N.

Definition is_bin_digit (c : ascii) : bool :=
  ((48 <=? N_of_ascii c) && (N_of_ascii c <=? 49))%N.

Fixpoint all_chars (p : ascii -> bool) (s : string) : bool :=
  match s with
  | EmptyString => true
  | String c s' => p c && all_chars p s'
  end.

Definition nonempty (s : string) : bool :=
  match s with EmptyString => false | _ => true end.

(** [ExponentPart_opt] followed by the end of the string. *)
Definition is_exponent_opt (s : string) : bool :=
  match s with
  | EmptyString => true
  | String c s' =>
      if (Ascii.eqb c "e" || Ascii.eqb c "E")%char
      then let '(_, ds) := strip_sign s' in nonempty ds && all_digits ds
      else false
  end.

(** Recogniser of [StrNumericLiteral] (the string is already trimmed and
    not empty). *)
Definition is_numeric_literal (s : string) : bool :=
  match s with
  | String "0"%char (String ("x" | "X")%char ds) => nonempty ds && all_chars is_hex_digit ds
  | String "0"%char (String ("o" | "O")%char ds) => nonempty ds && all_chars is_oct_digit ds
  | String "0"%char (String ("b" | "B")%char ds) => nonempty ds && all_chars is_bin_digit ds
  | _ =>
      let '(_, body) := strip_sign s in
      if String.eqb body "Infinity" then true
      else
        let '(d1, r1) := span_digits body in
        match r1 with
        | String "."%char r1' =>
            let '(d2, r2) := span_digits r1' in
            (nonempty d1 || nonempty d2) && is_exponent_opt r2
        | _ => nonempty d1 && is_exponent_opt r1
        end
  end.

(** [Number(s)] for a string [s] (StringToNumber). *)
Definition Number_ (s : string) : jsnum :=
  match trim s with
  | EmptyString => Num 0
  | t =>
      match int_literal t with
      | Some z => Num z
      | None => if is_numeric_literal t then Untracked else NaN
      end
  end.

(** [parseInt(s, 10)] for a string [s]. *)
Definition parseInt10 (s : string) : jsnum :=
  let '(sg, body) := strip_sign (trimStart s) in
  match span_digits body with
  | (EmptyString, _) => NaN
  | (ds, _) => Num (sg * digits_value 0 ds)
  end.

(** Decimal digits of a natural number, in front of [acc]; [fuel] bounds
    the number of further digits. *)
Fixpoint digits_go (fuel : nat) (n : Z) (acc : string) : string :=
  let acc' := String (digit_char (n mod 10)) acc in
  match fuel with
  | O => acc'
  | S f => if n / 10 =? 0 then acc' else digits_go f (n / 10) acc'
  end.

(** The decimal digits of a natural number. *)
Definition digits (n : Z) : string :=
  digits_go (Z.to_nat (Z.log2 n)) n EmptyString.

(** [String(z)], as a template literal prints an integer below 10^21. *)
Definition string_of_Z (z : Z) : string :=
  let ds := digits (Z.abs z) in
  if z <? 0 then String "-"%char ds else ds.

(** No occurrence of the separator of the button ids. *)
Definition colon_free (s : string) : bool :=
  all_chars (fun c => negb (Ascii.eqb c ":")) s.

(** [ToString] of a value that is a string or [undefined]. *)
Definition ToString (v : option string) : string :=
  match v with Some s => s | None => "undefined" end.

(** [ds] is a decimal numeral of [n]: digits only, at least one, that read
    as [n] in front of any rest. *)
Definition numeral (ds : string) (n : Z) : Prop :=
  ds <> EmptyString /\ all_digits ds = true /\
  forall a rest,
    digits_value a (ds +:+ rest) =
    digits_value (a * 10 ^ Z.of_nat (String.length ds) + n) rest.

End JS.

(** ** Data model *)

(** A record of [users.json]; any field may be missing. *)
Record UserData : Type := mkUserData {
  id : option string;
  username : option string;
  verifiedAt : option string;
  ip : option string;
  avatar : option string;
  access_token : option string;
  refresh_token : option string
}.

(** The process state the handlers share: the global [users], the
    content of [USERS_FILE] (a file that is missing or does not parse
    reads as the empty object, see [loadJson]), and [saved], the history
    of the contents handed to [saveJson(USERS_FILE, _)], oldest first.  A
    write is taken to succeed. *)
Record World : Type := mkWorld {
  users : gmap string UserData;
  file : gmap string UserData;
  saved : list (gmap string UserData)
}.

Definition loadJson (w : World) : gmap string UserData := file w.

(** [users = loadJson(USERS_FILE)] *)
Definition reload (w : World) : World :=
  {| users := loadJson w; file := file w; saved := saved w |}.

(** [saveJson(USERS_FILE, users)] *)
Definition saveJson (w : World) : World :=
  {| users := users w; file := users w; saved := saved w ++ [users w] |}.

Definition set_users (m : gmap string UserData) (w : World) : World :=
  {| users := m; file := file w; saved := saved w |}.

(** [Object.entries] and [Object.values], in the order of [map_to_list];
    nothing below depends on the order of the keys. *)
Definition entries (o : gmap string UserData) : list (string * UserData) :=
  map_to_list o.

Definition values (o : gmap string UserData) : list UserData :=
  (map_to_list o).*2.

Definition PAGE_SIZE : Z := 20.
Definition BUTTON_TTL : Z := 2 * 60 * 1000.

(** ** The paginated listing *)

Record Embed : Type := mkEmbed {
  title_page : Z;
  title_pages : Z;
  rows : list UserData;
  footer_total : Z
}.

Record Button : Type := mkButton {
  customId : string;
  disabled : bool
}.

Record Message : Type := mkMessage {
  content : option string;
  embeds : list Embed;
  components : list Button;
  ephemeral : bool
}.

Record UserlistPage : Type := mkUserlistPage {
  embed : Embed;
  buttons : list Button;
  meta_page : Z;
  meta_pages : Z;
  meta_timestamp : Z
}.

(** [Math.ceil(a / b)] for integers [a] and [b], [0 < b]. *)
Definition Math_ceil_div (a b : Z) : Z :=
  if a mod b =? 0 then a / b else a / b + 1.

(** Line 230, with the page size as a parameter. *)
Definition page_count (pageSize total : Z) : Z :=
  Z.max 1 (Math_ceil_div total pageSize).

(** Line 231. *)
Definition clamp_page (page pages : Z) : Z :=
  Z.min (Z.max 1 page) pages.

(** The template literal of lines 252 and 258. *)
Definition button_id (prefix : string) (page : Z) (invokerId : string)
    (timestamp : Z) : string :=
  prefix +:+ ":" +:+ JS.string_of_Z page +:+ ":" +:+ invokerId +:+ ":" +:+
  JS.string_of_Z timestamp.

(** [buildUserlistPage(usersObj, page, invokerId)]; [now] is what
    [Date.now()] returns at line 250. *)
Definition buildUserlistPage (usersObj : gmap string UserData) (page : Z)
    (invokerId : string) (now : Z) : UserlistPage :=
  let all := values usersObj in
  let total := Z.of_nat (length all) in
  let pages := page_count PAGE_SIZE total in
  let page := clamp_page page pages in
  let start := (page - 1) * PAGE_SIZE in
  let slice := take (Z.to_nat PAGE_SIZE) (drop (Z.to_nat start) all) in
  let timestamp := now in
  let prevBtn := {| customId := button_id "userlist_prev" (page - 1) invokerId timestamp;
                    disabled := page <=? 1 |} in
  let nextBtn := {| customId := button_id "userlist_next" (page + 1) invokerId timestamp;
                    disabled := pages <=? page |} in
  {| embed := {| title_page := page; title_pages := pages; rows := slice;
                 footer_total := total |};
     buttons := [prevBtn; nextBtn];
     meta_page := page; meta_pages := pages; meta_timestamp := timestamp |}.

(** ** Redeeming a pagination button *)

(** The four names bound by the destructuring of line 273. *)
Record Fields : Type := mkFields {
  prefix : string;
  pageStr : option string;
  invokerId : option string;
  createdAtStr : option string
}.

Definition destructure (cid : string) : Fields :=
  let parts := JS.split ":" cid in
  {| prefix := JS.ToString (parts !! 0%nat);
     pageStr := parts !! 1%nat;
     invokerId := parts !! 2%nat;
     createdAtStr := parts !! 3%nat |}.

(** Line 274: [Number(createdAtStr || 0)]. *)
Definition createdAt (f : Fields) : JS.jsnum :=
  if JS.truthy (createdAtStr f) then JS.Number_ (JS.ToString (createdAtStr f))
  else JS.Num 0.

(** Line 280: [Date.now() - createdAt > BUTTON_TTL]; a comparison with
    [NaN] is false. *)
Definition ttl_exceeded (now : Z) (c : JS.jsnum) : option bool :=
  match c with
  | JS.Num t => Some (BUTTON_TTL <? now - t)
  | JS.NaN => Some false
  | JS.Untracked => None
  end.

(** Lines 292-293. *)
Definition targetPage (f : Fields) : Z :=
  match JS.parseInt10 (JS.ToString (pageStr f)) with
  | JS.Num p => if p <? 1 then 1 else p
  | _ => 1
  end.

Inductive Response : Type :=
| NoResponse
| Update (m : Message)
| Reply (m : Message).

Definition expired_message : Message :=
  {| content := Some "This pagination has expired."; embeds := [];
     components := []; ephemeral := false |}.

Definition restricted_message : Message :=
  {| content := Some "These buttons are restricted to the command invoker.";
     embeds := []; components := []; ephemeral := true |}.

Definition page_message (p : UserlistPage) : Message :=
  {| content := None; embeds := [embed p]; components := buttons p;
     ephemeral := false |}.

(** The outcomes of the specification. *)
Definition Expired : Response := Update expired_message.
Definition Forbidden : Response := Reply restricted_message.

(** The button branch of [interactionCreate] (lines 272-307), for the
    button [cid] pressed by [userId].  [now] is [Date.now()] at line 280
    and [stamp] is [Date.now()] inside [buildUserlistPage].  The answer is
    [None] when the time field is a number the model does not track. *)
Definition button_handler (cid userId : string) (now stamp : Z) (w : World)
    : option (Response * World) :=
  let f := destructure cid in
  if negb (JS.startsWith "userlist" (prefix f)) then Some (NoResponse, w)
  else
    match ttl_exceeded now (createdAt f) with
    | None => None
    | Some true => Some (Expired, w)
    | Some false =>
        if negb (bool_decide (Some userId = invokerId f)) then Some (Forbidden, w)
        else
          let w' := reload w in
          let p := buildUserlistPage (users w') (targetPage f) userId stamp in
          Some (Update (page_message p), w')
    end.

(** ** The pagination token codec *)

(** The two buttons of a page. *)
Inductive Action : Type :=
| Previous
| Next.

Definition action_prefix (a : Action) : string :=
  match a with
  | Previous => "userlist_prev"
  | Next => "userlist_next"
  end.

(** Encoding is the template literal of [buildUserlistPage]. *)
Definition encode (a : Action) (targetPage : Z) (actorId : string)
    (issuedAt : Z) : string :=
  button_id (action_prefix a) targetPage actorId issuedAt.

(** Decoding is what the handler reads from a button id: the
    destructuring of line 273, [createdAt] of line 274 and the target page
    of lines 292-293. *)
Record Token : Type := mkToken {
  tk_prefix : string;
  tk_page : Z;
  tk_actor : option string;
  tk_issuedAt : JS.jsnum
}.

Definition decode (cid : string) : Token :=
  let f := destructure cid in
  {| tk_prefix := prefix f;
     tk_page := targetPage f;
     tk_actor := invokerId f;
     tk_issuedAt := createdAt f |}.

(** A response that shows a page of the listing. *)
Definition shows_page (r : Response) : bool :=
  match r with
  | Update m | Reply m => match embeds m with [] => false | _ => true end
  | NoResponse => false
  end.


(** ** The credential refresher *)

(** What [await fetch(...)] followed by [await res.json()] gives: an
    exception, or the parsed body ([None] when the body is [null] or has
    no fields at all). *)
Inductive Fetched (A : Type) : Type :=
| Threw
| Json (body : option A).
Arguments Threw {A}.
Arguments Json {A} body.

Record TokenData : Type := mkTokenData {
  td_access_token : option string;
  td_refresh_token : option string
}.

Definition set_access_token (v : option string) (u : UserData) : UserData :=
  mkUserData (id u) (username u) (verifiedAt u) (ip u) (avatar u) v (refresh_token u).

Definition set_refresh_token (v : option string) (u : UserData) : UserData :=
  mkUserData (id u) (username u) (verifiedAt u) (ip u) (avatar u) (access_token u) v.

(** The loop variables of [refreshAllTokens]. *)
Record RefreshState : Type := mkRefreshState {
  rs_users : gmap string UserData;
  refreshed : nat;
  deleted : nat
}.

Definition evict (userId : string) (st : RefreshState) : RefreshState :=
  {| rs_users := delete userId (rs_users st);
     refreshed := refreshed st;
     deleted := S (deleted st) |}.

(** What a run of [refreshAllTokens] leaves: the state, and the two counts
    of the summary line 223 when that line is reached. *)
Record RefreshRun : Type := mkRefreshRun {
  world : World;
  report : option (nat * nat)
}.

Section Refresher.

(** The token endpoint: the answer to the refresh request made for
    [userId] with its stored refresh token. *)
Variable token_endpoint : string -> string -> Fetched TokenData.

(** One iteration of the loop of lines 170-218.  [userData] is the
    object stored under [userId], so after the assignments of lines 202
    and 205 [userData.refresh_token] at line 209 reads the field just
    written. *)
Definition refresh_step (st : RefreshState) (entry : string * UserData)
    : RefreshState :=
  let '(userId, userData) := entry in
  if negb (JS.truthy (refresh_token userData)) then evict userId st
  else
    match token_endpoint userId (JS.ToString (refresh_token userData)) with
    | Threw => evict userId st
    | Json None => evict userId st
    | Json (Some tokenData) =>
        if negb (JS.truthy (td_access_token tokenData)) then evict userId st
        else
          match rs_users st !! userId with
          | None => evict userId st
          | Some u =>
              let u1 := set_access_token (td_access_token tokenData) u in
              let u2 := if JS.truthy (td_refresh_token tokenData)
                        then set_refresh_token (td_refresh_token tokenData) u1
                        else u1 in
              let u3 := if negb (JS.truthy (refresh_token u2))
                        then set_refresh_token (refresh_token u2) u2
                        else u2 in
              {| rs_users := <[userId := u3]> (rs_users st);
                 refreshed := S (refreshed st);
                 deleted := deleted st |}
          end
    end.

(** [refreshAllTokens()] *)
Definition refreshAllTokens (w : World) : RefreshRun :=
  let w1 := reload w in
  let es := entries (users w1) in
  if (length es =? 0)%nat then {| world := w1; report := None |}
  else
    let st := foldl refresh_step
                {| rs_users := users w1; refreshed := 0; deleted := 0 |} es in
    {| world := saveJson (set_users (rs_users st) w1);
       report := Some (refreshed st, deleted st) |}.

(** The algorithm of the specification for one record (steps 1 to 5):
    [None] when the record is evicted, the record with its tokens
    rotated when it is refreshed. *)
Definition refresh_record (userId : string) (u : UserData) : option UserData :=
  if JS.truthy (refresh_token u) then
    match token_endpoint userId (JS.ToString (refresh_token u)) with
    | Json (Some tokenData) =>
        if JS.truthy (td_access_token tokenData) then
          Some (mkUserData (id u) (username u) (verifiedAt u) (ip u) (avatar u)
                  (td_access_token tokenData)
                  (if JS.truthy (td_refresh_token tokenData)
                   then td_refresh_token tokenData else refresh_token u))
        else None
    | _ => None
    end
  else None.

(** The store the specification expects after a pass. *)
Definition refreshed_store (m : gmap string UserData) : gmap string UserData :=
  map_imap refresh_record m.

End Refresher.

(** ** The batch loop of [/addall] *)

Definition BATCH_SIZE : nat := 5.
Definition DELAY : Z := 5000.

Inductive InviteReply : Type :=
| InviteOk
| InviteHttpError
| InviteThrew.

Inductive Event : Type :=
| Started (ids : list string)
| AllSettled (ids : list string)
| Waited (ms : Z).

Record Dispatch : Type := mkDispatch {
  trace : list Event;
  success : nat;
  failed : nat
}.

(** [arr.slice(i, j)] *)
Definition slice {A : Type} (l : list A) (i j : nat) : list A :=
  take (j - i) (drop i l).

Section Dispatcher.

(** The membership endpoint of the target guild: the answer to the PUT
    made for [id] with its access token. *)
Variable members_endpoint : string -> string -> InviteReply.

(** The callback of [batch.map] (lines 486-513): its effect on the
    two counters. *)
Definition invite_one (acc : nat * nat) (entry : string * UserData)
    : nat * nat :=
  let '(success, failed) := acc in
  let '(id, u) := entry in
  if negb (JS.truthy (access_token u)) then (success, S failed)
  else
    match members_endpoint id (JS.ToString (access_token u)) with
    | InviteOk => (S success, failed)
    | InviteHttpError => (success, S failed)
    | InviteThrew => (success, S failed)
    end.

(** The [for] loop of lines 484-518 from index [i] on.  A batch is
    started as a whole and awaited as a whole ([Promise.all]). *)
Equations? addall_loop (es : list (string * UserData)) (i : nat)
    (st : Dispatch) : Dispatch by wf (length es - i)%nat lt :=
  addall_loop es i st with decide (i < length es)%nat := {
    | left _ =>
        let batch := slice es i (i + BATCH_SIZE) in
        let '(s, f) := foldl invite_one (success st, failed st) batch in
        let tr := trace st ++ [Started batch.*1; AllSettled batch.*1] in
        let tr := if decide (i + BATCH_SIZE < length es)%nat
                  then tr ++ [Waited DELAY] else tr in
        addall_loop es (i + BATCH_SIZE)%nat
          {| trace := tr; success := s; failed := f |}
    | right _ => st }.
Proof. unfold BATCH_SIZE. lia. Qed.

Definition dispatch (es : list (string * UserData)) : Dispatch :=
  addall_loop es 0 {| trace := []; success := 0; failed := 0 |}.

End Dispatcher.

(** The policy of the specification.  [chunks l]: the contiguous batches
    of [BATCH_SIZE] elements of [l], the last one possibly smaller.
    [schedule bs]: every batch is started and awaited before the next one,
    with one delay between two batches and none after the last. *)
Equations? chunks {A : Type} (l : list A) : list (list A) by wf (length l) lt :=
chunks [] := [];
chunks (x :: l') := take BATCH_SIZE (x :: l') :: chunks (drop BATCH_SIZE (x :: l')).
Proof. rewrite length_drop. unfold BATCH_SIZE. cbn [length]. lia. Qed.

Fixpoint schedule (bs : list (list string)) : list Event :=
  match bs with
  | [] => []
  | [b] => [Started b; AllSettled b]
  | b :: bs' => Started b :: AllSettled b :: Waited DELAY :: schedule bs'
  end.

(** The batches a trace starts, and the number of delays it waits. *)
Definition started (tr : list Event) : list (list string) :=
  omap (fun e => match e with Started b => Some b | _ => None end) tr.

Definition is_wait (e : Event) : bool :=
  match e with Waited _ => true | _ => false end.

Definition waits (tr : list Event) : nat := length (List.filter is_wait tr).

(** ** The OAuth callback *)

Record Request : Type := mkRequest {
  query_code : option string;
  x_forwarded_for : option string;
  remoteAddress : option string
}.

(** The body of [/users/@me]. *)
Record UserInfo : Type := mkUserInfo {
  ui_id : option string;
  ui_global_name : option string;
  ui_username : option string;
  ui_user_username : option string;
  ui_discriminator : option string;
  ui_avatar : option string
}.

Inductive Body : Type :=
| Text (s : string)
| SuccessPage (id avatar : option string) (fullUsername : string).

Record HttpResponse : Type := mkHttpResponse {
  status : Z;
  body : Body
}.

Definition client_error (r : HttpResponse) : bool :=
  (400 <=? status r) && (status r <=? 499).

Section Callback.

(** The token endpoint for an authorization code, and [/users/@me] for
    the token pair obtained. *)
Variable exchange : string -> Fetched TokenData.
Variable users_me : TokenData -> Fetched UserInfo.

(** Lines 621-624. *)
Definition fullUsername (userData : UserInfo) : string :=
  let maybeName :=
    JS.trim (JS.ToString
      (JS.or_else (ui_global_name userData)
        (JS.or_else (ui_username userData)
          (JS.or_else (ui_user_username userData) (Some ""))))) in
  let discriminator :=
    if JS.truthy (ui_discriminator userData) &&
       negb (bool_decide (ui_discriminator userData = Some "0"))
    then "#" +:+ JS.ToString (ui_discriminator userData) else "" in
  JS.ToString (JS.or_else (Some maybeName) (Some "UnknownUser")) +:+ discriminator.

(** [app.get('/callback', ...)]; [isoNow] is
    [new Date().toISOString()] at line 631.  The role assignment and the
    log message of lines 639-670 act on Discord only, under handlers of
    their own, and are left out. *)
Definition callback (req : Request) (isoNow : string) (w : World)
    : HttpResponse * World :=
  let code := query_code req in
  let ip := JS.or_else (x_forwarded_for req)
              (JS.or_else (remoteAddress req) (Some "Unknown")) in
  if negb (JS.truthy code) then
    ({| status := 400; body := Text "Missing code." |}, w)
  else
    match exchange (JS.ToString code) with
    | Threw =>
        ({| status := 500; body := Text "Internal server error during verification." |}, w)
    | Json tokenData =>
        match tokenData with
        | Some td =>
            if negb (JS.truthy (td_access_token td)) then
              ({| status := 500; body := Text "Failed to get access token from Discord." |}, w)
            else
              match users_me td with
              | Threw | Json None =>
                  ({| status := 500;
                      body := Text "Internal server error during verification." |}, w)
              | Json (Some userData) =>
                  let name := fullUsername userData in
                  let w1 := reload w in
                  let record :=
                    {| id := ui_id userData;
                       username := Some name;
                       verifiedAt := Some isoNow;
                       ip := ip;
                       avatar := JS.or_else (ui_avatar userData) None;
                       access_token := td_access_token td;
                       refresh_token := JS.or_else (td_refresh_token td) None |} in
                  let w2 := set_users (<[JS.ToString (ui_id userData) := record]> (users w1)) w1 in
                  ({| status := 200;
                      body := SuccessPage (ui_id userData) (ui_avatar userData) name |},
                   saveJson w2)
              end
        | None =>
            ({| status := 500; body := Text "Failed to get access token from Discord." |}, w)
        end
    end.

End Callback.

(** A token exchange that gives no access token: the endpoint throws, or
    answers with a body without [access_token] (as for an invalid code). *)
Definition exchange_failed (r : Fetched TokenData) : bool :=
  match r with
  | Json (Some td) => negb (JS.truthy (td_access_token td))
  | _ => true
  end.

(** ** Sample data *)

(** A record with both tokens, and the store of the [n] records named
    ["0"] to [n - 1]. *)
Definition sample_user (name : string) : UserData :=
  mkUserData (Some name) (Some name) None None None (Some "at") (Some "rt").

Definition sample_store (n : nat) : gmap string UserData :=
  list_to_map (map (fun k => let name := JS.string_of_Z (Z.of_nat k) in
                             (name, sample_user name)) (seq 0 n)).


(** A store of two records, one of them without a refresh token, and a
    token endpoint that renews the access token only. *)
Definition stale_user : UserData :=
  mkUserData (Some "7") (Some "bob") None None None (Some "at7") None.

Definition fresh_user : UserData :=
  mkUserData (Some "42") (Some "ann") None None None (Some "at42") (Some "rt42").

Definition two_users : World :=
  mkWorld ∅ (<["7" := stale_user]> {["42" := fresh_user]}) [].

Definition rotate_access (userId refresh : string) : Fetched TokenData :=
  Json (Some (mkTokenData (Some "new") None)).

(** * Properties *)

(** ** Decimal printing and parsing *)

Module JSFacts.
Import JS.

Lemma app_nil (b : string) : EmptyString +:+ b = b.
Proof. reflexivity. Qed.

Lemma app_cons (x : ascii) (a b : string) : String x a +:+ b = String x (a +:+ b).
Proof. reflexivity. Qed.

Lemma app_assoc (a b c : string) : (a +:+ b) +:+ c = a +:+ (b +:+ c).
Proof. induction a as [|x a IH]; [done | by rewrite !app_cons, IH]. Qed.

Lemma app_empty_r (a : string) : a +:+ EmptyString = a.
Proof. induction a as [|x a IH]; [done | by rewrite app_cons, IH]. Qed.

Lemma length_snoc (a : string) (x : ascii) :
  String.length (a +:+ String x EmptyString) = S (String.length a).
Proof. induction a as [|y a IH]; [done | by rewrite app_cons; cbn; rewrite IH]. Qed.

Lemma all_digits_app (a b : string) :
  all_digits (a +:+ b) = all_digits a && all_digits b.
Proof.
  induction a as [|x a IH]; [done |].
  rewrite app_cons. cbn [all_digits]. rewrite IH. by rewrite andb_assoc.
Qed.

Lemma digit_char_is_digit (d : Z) : 0 <= d < 10 -> is_digit (digit_char d) = true.
Proof.
  intros Hd. unfold is_digit, digit_char.
  rewrite N_ascii_embedding by lia.
  apply andb_true_intro; split; apply N.leb_le; lia.
Qed.

Lemma digit_val_char (d : Z) : 0 <= d < 10 -> digit_val (digit_char d) = d.
Proof.
  intros Hd. unfold digit_val, digit_char.
  rewrite N_ascii_embedding by lia. lia.
Qed.

Lemma numeral_digit (n : Z) :
  0 <= n < 10 -> numeral (String (digit_char n) EmptyString) n.
Proof.
  intros Hn. split; [done |]. split.
  - cbn. by rewrite digit_char_is_digit.
  - intros a rest. rewrite app_cons, app_nil. cbn [digits_value String.length].
    rewrite digit_val_char by done. f_equal; lia.
Qed.

Lemma numeral_snoc (ds : string) (n : Z) :
  0 <= n -> numeral ds (n / 10) ->
  numeral (ds +:+ String (digit_char (n mod 10)) EmptyString) n.
Proof.
  intros Hn (Hne & Hall & Hval).
  pose proof (Z.mod_pos_bound n 10 ltac:(lia)) as Hm.
  split; [by destruct ds |]. split.
  - rewrite all_digits_app, Hall. cbn. by rewrite digit_char_is_digit.
  - intros a rest. rewrite app_assoc, Hval, app_cons, app_nil.
    cbn [digits_value]. rewrite digit_val_char by done.
    f_equal.
    rewrite length_snoc, Nat2Z.inj_succ, Z.pow_succ_r by lia.
    pose proof (Z.div_mod n 10 ltac:(lia)). lia.
Qed.

Lemma digits_go_numeral (fuel : nat) :
  forall n acc, 0 <= n < 10 ^ Z.of_nat (S fuel) ->
    exists ds, digits_go fuel n acc = ds +:+ acc /\ numeral ds n.
Proof.
  induction fuel as [|fuel IH]; intros n acc Hn.
  - exists (String (digit_char (n mod 10)) EmptyString). split; [done |].
    change (10 ^ Z.of_nat 1) with 10 in Hn.
    rewrite Z.mod_small by done. by apply numeral_digit.
  - cbn [digits_go]. destruct (Z.eqb_spec (n / 10) 0) as [Hq | Hq].
    + exists (String (digit_char (n mod 10)) EmptyString). split; [done |].
      assert (n < 10).
      { pose proof (Z.div_mod n 10 ltac:(lia)).
        pose proof (Z.mod_pos_bound n 10 ltac:(lia)). lia. }
      rewrite Z.mod_small by lia. apply numeral_digit. lia.
    + destruct (IH (n / 10) (String (digit_char (n mod 10)) acc)) as (ds & Heq & Hnum).
      { split; [apply Z.div_pos; lia |].
        apply Z.div_lt_upper_bound; [lia |].
        rewrite <- Z.pow_succ_r by lia. rewrite <- Nat2Z.inj_succ. lia. }
      exists (ds +:+ String (digit_char (n mod 10)) EmptyString). split.
      * by rewrite Heq, app_assoc, app_cons, app_nil.
      * apply numeral_snoc; [lia | done].
Qed.

Lemma digits_numeral (n : Z) : 0 <= n -> numeral (digits n) n.
Proof.
  intros Hn. unfold digits.
  destruct (digits_go_numeral (Z.to_nat (Z.log2 n)) n EmptyString) as (ds & Heq & Hnum).
  - split; [done |].
    rewrite Nat2Z.inj_succ, Z2Nat.id by apply Z.log2_nonneg.
    destruct (Z.eq_dec n 0) as [-> | Hn0]; [by vm_compute |].
    pose proof (Z.log2_spec n ltac:(lia)) as [_ Hlt].
    eapply Z.lt_le_trans; [exact Hlt |].
    apply Z.pow_le_mono_l. lia.
  - rewrite Heq, app_empty_r. exact Hnum.
Qed.

Lemma string_of_Z_nonneg (z : Z) : 0 <= z -> string_of_Z z = digits z.
Proof.
  intros Hz. unfold string_of_Z.
  destruct (Z.ltb_spec z 0); [lia |]. by rewrite Z.abs_eq.
Qed.

Lemma string_of_Z_neg (z : Z) :
  z < 0 -> string_of_Z z = String "-"%char (digits (- z)).
Proof.
  intros Hz. unfold string_of_Z.
  destruct (Z.ltb_spec z 0); [| lia]. by rewrite Z.abs_neq by lia.
Qed.

Lemma numeral_value (ds : string) (n : Z) : numeral ds n -> digits_value 0 ds = n.
Proof.
  intros (_ & _ & Hval). specialize (Hval 0 EmptyString).
  rewrite app_empty_r in Hval. by rewrite Hval.
Qed.

Lemma span_all_digits (ds : string) :
  all_digits ds = true -> span_digits ds = (ds, EmptyString).
Proof.
  induction ds as [|c ds IH]; cbn; [done |].
  intros [Hc Hds]%andb_true_iff. by rewrite Hc, (IH Hds).
Qed.

Lemma digit_not_whitespace (c : ascii) : is_digit c = true -> is_whitespace c = false.
Proof.
  unfold is_digit, is_whitespace.
  intros [H1%N.leb_le H2%N.leb_le]%andb_true_iff.
  destruct (N_of_ascii c) as [|q]; [done |].
  do 6 (destruct q as [q|q|]; try done; try lia).
Qed.

Lemma digit_not_sign (c : ascii) (s : string) :
  is_digit c = true -> strip_sign (String c s) = (1, String c s).
Proof.
  intros Hc. unfold strip_sign.
  destruct (Ascii.eqb_spec c "-") as [-> | ?]; [done |].
  destruct (Ascii.eqb_spec c "+") as [-> | ?]; [done |].
  destruct c as [[] [] [] [] [] [] [] []]; try done.
Qed.

Lemma trimEnd_digits (ds : string) : all_digits ds = true -> trimEnd ds = ds.
Proof.
  induction ds as [|c ds IH]; cbn; [done |].
  intros [Hc Hds]%andb_true_iff. rewrite (IH Hds).
  destruct ds; [by rewrite (digit_not_whitespace c Hc) | done].
Qed.

Lemma trimStart_digit (c : ascii) (s : string) :
  is_whitespace c = false -> trimStart (String c s) = String c s.
Proof. intros Hc. cbn. by rewrite Hc. Qed.

Lemma numeral_inv (ds : string) (n : Z) :
  numeral ds n ->
  exists c ds', ds = String c ds' /\ is_digit c = true /\ all_digits ds = true.
Proof.
  intros (Hne & Hall & _). destruct ds as [|c ds']; [done |].
  exists c, ds'. repeat split; [| done].
  cbn in Hall. by apply andb_true_iff in Hall as [? _].
Qed.

Lemma int_literal_numeral (ds : string) (n : Z) :
  numeral ds n ->
  int_literal ds = Some n /\ int_literal (String "-" ds) = Some (- n).
Proof.
  intros Hnum.
  pose proof (numeral_value _ _ Hnum) as Hval.
  destruct (numeral_inv _ _ Hnum) as (c & ds' & -> & Hc & Hall).
  unfold int_literal. rewrite (digit_not_sign c ds' Hc). cbn [strip_sign].
  cbv beta iota zeta. rewrite Hall, Hval. split; f_equal; lia.
Qed.

Lemma int_literal_string_of_Z (z : Z) : int_literal (string_of_Z z) = Some z.
Proof.
  destruct (Z.lt_ge_cases z 0) as [Hz | Hz].
  - rewrite string_of_Z_neg by done.
    destruct (int_literal_numeral _ _ (digits_numeral (- z) ltac:(lia))) as [_ ->].
    f_equal; lia.
  - rewrite string_of_Z_nonneg by done.
    by destruct (int_literal_numeral _ _ (digits_numeral z Hz)) as [-> _].
Qed.

Lemma trim_string_of_Z (z : Z) : trim (string_of_Z z) = string_of_Z z.
Proof.
  unfold trim.
  destruct (Z.lt_ge_cases z 0) as [Hz | Hz].
  - rewrite string_of_Z_neg by done.
    pose proof (digits_numeral (- z) ltac:(lia)) as Hnum.
    destruct (numeral_inv _ _ Hnum) as (c & ds' & Heq & Hc & Hall).
    rewrite trimStart_digit by done.
    cbn [trimEnd]. rewrite (trimEnd_digits _ Hall). by rewrite Heq.
  - rewrite string_of_Z_nonneg by done.
    pose proof (digits_numeral z Hz) as Hnum.
    destruct (numeral_inv _ _ Hnum) as (c & ds' & Heq & Hc & Hall).
    rewrite Heq, trimStart_digit by (by apply digit_not_whitespace).
    rewrite <- Heq. by apply trimEnd_digits.
Qed.

Lemma string_of_Z_nonempty (z : Z) : string_of_Z z <> EmptyString.
Proof.
  destruct (Z.lt_ge_cases z 0) as [Hz | Hz].
  - by rewrite string_of_Z_neg.
  - rewrite string_of_Z_nonneg by done.
    by destruct (digits_numeral z Hz) as (? & _).
Qed.

(** Printing an integer and reading it back with [Number]. *)
Lemma Number_string_of_Z (z : Z) : Number_ (string_of_Z z) = Num z.
Proof.
  unfold Number_. rewrite trim_string_of_Z.
  pose proof (int_literal_string_of_Z z) as Hi.
  pose proof (string_of_Z_nonempty z).
  destruct (string_of_Z z); [done |]. by rewrite Hi.
Qed.

(** Printing an integer and reading it back with [parseInt]. *)
Lemma parseInt10_numeral (ds : string) (n : Z) :
  numeral ds n ->
  parseInt10 ds = Num n /\ parseInt10 (String "-" ds) = Num (- n).
Proof.
  intros Hnum.
  pose proof (numeral_value _ _ Hnum) as Hval.
  destruct (numeral_inv _ _ Hnum) as (c & ds' & -> & Hc & Hall).
  unfold parseInt10.
  rewrite !trimStart_digit by (done || by apply digit_not_whitespace).
  rewrite (digit_not_sign c ds' Hc). cbn [strip_sign].
  cbv beta iota zeta. rewrite (span_all_digits _ Hall), Hval.
  cbv beta iota zeta. split; f_equal; lia.
Qed.

Lemma parseInt10_string_of_Z (z : Z) : parseInt10 (string_of_Z z) = Num z.
Proof.
  destruct (Z.lt_ge_cases z 0) as [Hz | Hz].
  - rewrite string_of_Z_neg by done.
    destruct (parseInt10_numeral _ _ (digits_numeral (- z) ltac:(lia))) as [_ ->].
    f_equal; lia.
  - rewrite string_of_Z_nonneg by done.
    by destruct (parseInt10_numeral _ _ (digits_numeral z Hz)) as [-> _].
Qed.

Lemma truthy_string_of_Z (z : Z) : truthy (Some (string_of_Z z)) = true.
Proof. pose proof (string_of_Z_nonempty z). by destruct (string_of_Z z). Qed.

Lemma digit_not_colon (c : ascii) : is_digit c = true -> Ascii.eqb c ":" = false.
Proof.
  intros Hc. destruct (Ascii.eqb_spec c ":") as [-> | ?]; [done | done].
Qed.

Lemma all_digits_colon_free (ds : string) : all_digits ds = true -> colon_free ds = true.
Proof.
  unfold colon_free. induction ds as [|c ds IH]; [done |].
  cbn [all_digits all_chars].
  intros [Hc Hds]%andb_true_iff.
  by rewrite (digit_not_colon c Hc), (IH Hds).
Qed.

Lemma colon_free_string_of_Z (z : Z) : colon_free (string_of_Z z) = true.
Proof.
  destruct (Z.lt_ge_cases z 0) as [Hz | Hz].
  - rewrite string_of_Z_neg by done.
    destruct (digits_numeral (- z) ltac:(lia)) as (_ & Hall & _).
    cbn. by apply all_digits_colon_free.
  - rewrite string_of_Z_nonneg by done.
    destruct (digits_numeral z Hz) as (_ & Hall & _).
    by apply all_digits_colon_free.
Qed.

(** Splitting at the separator. *)
Lemma split_colon_free (a : string) : colon_free a = true -> split ":" a = [a].
Proof.
  unfold colon_free. induction a as [|c a IH]; [done |].
  cbn [all_chars split].
  intros [Hc Ha]%andb_true_iff. apply negb_true_iff in Hc.
  by rewrite Hc, (IH Ha).
Qed.

Lemma split_app (a rest : string) :
  colon_free a = true ->
  split ":" (a +:+ String ":" rest) = a :: split ":" rest.
Proof.
  unfold colon_free. induction a as [|c a IH]; [done |].
  rewrite app_cons. cbn [all_chars split].
  intros [Hc Ha]%andb_true_iff. apply negb_true_iff in Hc.
  by rewrite Hc, (IH Ha).
Qed.

End JSFacts.

(** ** The pagination token codec *)

Lemma destructure_button_id (pre : string) (page : Z) (actor : string) (t : Z) :
  JS.colon_free pre = true -> JS.colon_free actor = true ->
  destructure (button_id pre page actor t) =
  {| prefix := pre; pageStr := Some (JS.string_of_Z page);
     invokerId := Some actor; createdAtStr := Some (JS.string_of_Z t) |}.
Proof.
  intros Hpre Hactor. unfold destructure, button_id.
  rewrite !JSFacts.app_cons, !JSFacts.app_nil.
  rewrite (JSFacts.split_app pre _ Hpre).
  rewrite (JSFacts.split_app _ _ (JSFacts.colon_free_string_of_Z page)).
  rewrite (JSFacts.split_app actor _ Hactor).
  rewrite (JSFacts.split_colon_free _ (JSFacts.colon_free_string_of_Z t)).
  reflexivity.
Qed.

Lemma createdAt_printed (pre : string) (ps actor : option string) (t : Z) :
  createdAt {| prefix := pre; pageStr := ps; invokerId := actor;
               createdAtStr := Some (JS.string_of_Z t) |} = JS.Num t.
Proof.
  unfold createdAt. cbn [createdAtStr JS.ToString].
  by rewrite JSFacts.truthy_string_of_Z, JSFacts.Number_string_of_Z.
Qed.

Lemma targetPage_printed (pre : string) (page : Z) (actor ts : option string) :
  targetPage {| prefix := pre; pageStr := Some (JS.string_of_Z page);
                invokerId := actor; createdAtStr := ts |} =
  if page <? 1 then 1 else page.
Proof.
  unfold targetPage. cbn [pageStr JS.ToString].
  by rewrite JSFacts.parseInt10_string_of_Z.
Qed.

Lemma action_prefix_colon_free (a : Action) : JS.colon_free (action_prefix a) = true.
Proof. by destruct a. Qed.

(** The buttons of a page carry the encoding of the neighbouring pages. *)
Lemma buttons_encode (usersObj : gmap string UserData) (page : Z)
    (invoker : string) (now : Z) :
  let p := buildUserlistPage usersObj page invoker now in
  customId <$> buttons p =
  [encode Previous (meta_page p - 1) invoker now;
   encode Next (meta_page p + 1) invoker now].
Proof. reflexivity. Qed.

(** Every button of a page built for an invoker whose id holds no
    separator reads back as a listing token of that invoker, issued at the
    time the page was built. *)
Lemma issued_buttons_read_back (usersObj : gmap string UserData) (page : Z)
    (invoker : string) (now : Z) (b : Button) :
  JS.colon_free invoker = true ->
  b ∈ buttons (buildUserlistPage usersObj page invoker now) ->
  JS.startsWith "userlist" (prefix (destructure (customId b))) = true /\
  invokerId (destructure (customId b)) = Some invoker /\
  createdAt (destructure (customId b)) = JS.Num now.
Proof.
  intros Hinv Hb. unfold buildUserlistPage in Hb. cbn [buttons] in Hb.
  apply elem_of_cons in Hb as [-> | Hb];
    [| apply elem_of_cons in Hb as [-> | Hb]; [| by apply elem_of_nil in Hb]];
    cbn [customId];
    rewrite destructure_button_id by done;
    rewrite createdAt_printed; by cbn.
Qed.

(** C2 (amended). For every action, every target page [page >= 1], every
    actor id without the separator [":"] and every issue time, decoding
    the encoded button id gives back the prefix of the action, the page,
    the actor id and the issue time. *)
Theorem decode_encode (a : Action) (page : Z) (actor : string) (t : Z) :
  1 <= page -> JS.colon_free actor = true ->
  decode (encode a page actor t) =
  {| tk_prefix := action_prefix a; tk_page := page;
     tk_actor := Some actor; tk_issuedAt := JS.Num t |}.
Proof.
  intros Hpage Hactor. unfold decode, encode.
  rewrite (destructure_button_id _ page actor t (action_prefix_colon_free a) Hactor).
  rewrite createdAt_printed, targetPage_printed.
  cbn [prefix invokerId].
  destruct (Z.ltb_spec page 1); [lia | done].
Qed.

Lemma decode_encode_witness :
  decode (encode Next 2 "42" 1700000000000) =
  {| tk_prefix := "userlist_next"; tk_page := 2;
     tk_actor := Some "42"; tk_issuedAt := JS.Num 1700000000000 |}.
Proof. apply (decode_encode Next 2 "42" 1700000000000); [lia | reflexivity]. Defined.

(** C2, as stated, fails for an actor id that holds the separator: the
    fields after it shift by one. *)
Lemma decode_encode_counterexample :
  decode (encode Next 2 "a:b" 1000) <>
  {| tk_prefix := action_prefix Next; tk_page := 2;
     tk_actor := Some "a:b"; tk_issuedAt := JS.Num 1000 |}.
Proof. vm_compute. discriminate. Qed.

(** The page before the first one, which the disabled button of page 1
    carries, decodes to page 1. *)
Example decode_page_zero : tk_page (decode (encode Previous 0 "42" 1000)) = 1.
Proof. reflexivity. Qed.

(** ** Redemption *)

Lemma page_not_expired (p : UserlistPage) : Update (page_message p) <> Expired.
Proof. discriminate. Qed.

Lemma handler_expired_iff (cid userId : string) (now stamp t : Z) (w : World) :
  JS.startsWith "userlist" (prefix (destructure cid)) = true ->
  createdAt (destructure cid) = JS.Num t ->
  (fst <$> button_handler cid userId now stamp w = Some Expired <->
   BUTTON_TTL < now - t).
Proof.
  intros Hpre Ht. unfold button_handler. rewrite Hpre, Ht. cbn [negb ttl_exceeded].
  destruct (Z.ltb_spec BUTTON_TTL (now - t)) as [Hlt | Hle].
  - done.
  - split; [| lia].
    destruct (negb (bool_decide (Some userId = invokerId (destructure cid))));
      cbn; intros [=].
Qed.

(** C1. For every pagination token (a button id of the listing) that
    decodes to the issue time [t], and every redemption time [now], the
    handler answers, and its answer is [Expired] exactly when
    [now - t > BUTTON_TTL], with [BUTTON_TTL] two minutes in milliseconds;
    at [t + BUTTON_TTL + 1] the answer is [Expired], at
    [t + BUTTON_TTL - 1] it is not. *)
Theorem expired_iff_older_than_ttl (cid userId : string) (now stamp t : Z)
    (w : World) :
  JS.startsWith "userlist" (tk_prefix (decode cid)) = true ->
  tk_issuedAt (decode cid) = JS.Num t ->
  BUTTON_TTL = 120000 /\
  is_Some (button_handler cid userId now stamp w) /\
  (button_handler cid userId now stamp w = Some (Expired, w) <->
   now - t > BUTTON_TTL) /\
  (fst <$> button_handler cid userId now stamp w = Some Expired <->
   now - t > BUTTON_TTL) /\
  button_handler cid userId (t + BUTTON_TTL + 1) stamp w = Some (Expired, w) /\
  fst <$> button_handler cid userId (t + BUTTON_TTL - 1) stamp w <> Some Expired.
Proof.
  unfold decode. cbn [tk_prefix tk_issuedAt]. intros Hpre Ht.
  assert (Hiff : forall n, fst <$> button_handler cid userId n stamp w = Some Expired <->
                           BUTTON_TTL < n - t)
    by (intros n; by apply handler_expired_iff).
  assert (Hexp : forall n, BUTTON_TTL < n - t ->
                           button_handler cid userId n stamp w = Some (Expired, w)).
  { intros n Hn. unfold button_handler. rewrite Hpre, Ht. cbn [negb ttl_exceeded].
    by destruct (Z.ltb_spec BUTTON_TTL (n - t)); [| lia]. }
  split; [reflexivity |]. split.
  { unfold button_handler. rewrite Hpre, Ht. cbn [negb ttl_exceeded].
    destruct (BUTTON_TTL <? now - t); [by eexists |].
    destruct (negb _); by eexists. }
  split.
  { split; [| intros; apply Hexp; lia].
    intros Heq. apply Z.lt_gt, Hiff. by rewrite Heq. }
  split; [rewrite Hiff; lia |].
  split; [apply Hexp; lia |].
  rewrite Hiff. lia.
Qed.

Lemma expired_iff_older_than_ttl_witness :
  button_handler "userlist_next:2:42:1000" "42" (1000 + BUTTON_TTL + 1) 0
    (mkWorld ∅ ∅ []) = Some (Expired, mkWorld ∅ ∅ []) /\
  fst <$> button_handler "userlist_next:2:42:1000" "42" (1000 + BUTTON_TTL - 1) 0
    (mkWorld ∅ ∅ []) <> Some Expired.
Proof.
  pose proof (expired_iff_older_than_ttl "userlist_next:2:42:1000" "42" 0 0 1000
                (mkWorld ∅ ∅ []) ltac:(reflexivity) ltac:(reflexivity))
    as (_ & _ & _ & _ & H1 & H2).
  split; [exact H1 | exact H2].
Defined.

(** C3. For every pagination token (a button id of the listing) whose age
    does not exceed the TTL, pressed by a user other than the actor the
    token decodes to, and for every such time of pressing, the handler
    answers [Forbidden]: a reply that carries no embed and no component,
    and leaves the state as it was. *)
Theorem forbidden_for_other_user (cid userId : string) (now stamp t : Z)
    (w : World) :
  JS.startsWith "userlist" (tk_prefix (decode cid)) = true ->
  tk_issuedAt (decode cid) = JS.Num t ->
  now - t <= BUTTON_TTL ->
  tk_actor (decode cid) <> Some userId ->
  button_handler cid userId now stamp w = Some (Forbidden, w) /\
  shows_page Forbidden = false /\
  embeds restricted_message = [] /\ components restricted_message = [].
Proof.
  unfold decode. cbn [tk_prefix tk_issuedAt tk_actor].
  intros Hpre Ht Hage Hother. repeat split.
  unfold button_handler. rewrite Hpre, Ht. cbn [negb ttl_exceeded].
  destruct (Z.ltb_spec BUTTON_TTL (now - t)); [lia |].
  rewrite bool_decide_eq_false_2; [done | congruence].
Qed.

Lemma forbidden_for_other_user_witness :
  button_handler "userlist_next:2:42:1000" "43" 2000 2001 (mkWorld ∅ ∅ []) =
  Some (Forbidden, mkWorld ∅ ∅ []).
Proof.
  apply (forbidden_for_other_user "userlist_next:2:42:1000" "43" 2000 2001 1000
           (mkWorld ∅ ∅ []));
    [reflexivity | reflexivity | by vm_compute | discriminate].
Defined.

(** ** The credential refresher *)

Section RefresherFacts.

Variable token_endpoint : string -> string -> Fetched TokenData.

Local Abbreviation step := (refresh_step token_endpoint).
Local Abbreviation record := (refresh_record token_endpoint).

(** One iteration, on a record that is still in the store, does what the
    specification says for that record. *)
Lemma refresh_step_spec (st : RefreshState) (k : string) (v : UserData) :
  rs_users st !! k = Some v ->
  step st (k, v) =
  match record k v with
  | Some v' => {| rs_users := <[k := v']> (rs_users st);
                  refreshed := S (refreshed st); deleted := deleted st |}
  | None => evict k st
  end.
Proof.
  intros Hk. unfold refresh_step, refresh_record.
  destruct (JS.truthy (refresh_token v)) eqn:Hrt; cbn [negb]; [| done].
  destruct (token_endpoint k _) as [|[td|]]; [done | | done].
  destruct (JS.truthy (td_access_token td)) eqn:Hat; cbn [negb]; [| done].
  rewrite Hk.
  destruct (JS.truthy (td_refresh_token td)) eqn:Hnew;
    cbn [set_refresh_token set_access_token refresh_token];
    [rewrite Hnew | rewrite Hrt]; done.
Qed.

Lemma refresh_step_present (st : RefreshState) (k : string) (v : UserData) :
  rs_users st !! k = Some v ->
  (forall j, j <> k -> rs_users (step st (k, v)) !! j = rs_users st !! j) /\
  rs_users (step st (k, v)) !! k = record k v /\
  (refreshed (step st (k, v)) + deleted (step st (k, v)) =
   S (refreshed st + deleted st))%nat /\
  (size (rs_users (step st (k, v))) + deleted (step st (k, v)) =
   size (rs_users st) + deleted st)%nat.
Proof.
  intros Hk. rewrite (refresh_step_spec st k v Hk).
  assert (Hpos : (0 < size (rs_users st))%nat).
  { destruct (size (rs_users st)) eqn:Hsz; [| lia].
    apply map_size_empty_inv in Hsz. rewrite Hsz in Hk. by rewrite lookup_empty in Hk. }
  destruct (record k v) as [v'|]; cbn [rs_users refreshed deleted evict].
  - split_and!.
    + intros j Hj. by rewrite lookup_insert_ne.
    + by rewrite lookup_insert_eq.
    + lia.
    + by rewrite map_size_insert_Some.
  - split_and!.
    + intros j Hj. by rewrite lookup_delete_ne.
    + by rewrite lookup_delete_eq.
    + lia.
    + rewrite map_size_delete_Some by done. lia.
Qed.

(** The loop over a list of entries without repeated keys, each still in
    the store. *)
Lemma foldl_refresh_step (l : list (string * UserData)) :
  forall st,
    NoDup (l.*1) ->
    (forall k v, (k, v) ∈ l -> rs_users st !! k = Some v) ->
    let st' := foldl step st l in
    (forall k, rs_users st' !! k =
               match (list_to_map l : gmap string UserData) !! k with
               | Some v => record k v
               | None => rs_users st !! k
               end) /\
    (refreshed st' + deleted st' = refreshed st + deleted st + length l)%nat /\
    (size (rs_users st') + deleted st' = size (rs_users st) + deleted st)%nat.
Proof.
  induction l as [|[k0 v0] l IH]; intros st Hnd Hin; cbn [foldl].
  - split_and!; [| cbn [length]; lia | lia].
    intros k. cbn [list_to_map foldr]. by rewrite lookup_empty.
  - rewrite fmap_cons in Hnd. apply NoDup_cons in Hnd as [Hk0 Hnd].
    assert (Hk : rs_users st !! k0 = Some v0) by (apply Hin; left).
    destruct (refresh_step_present st k0 v0 Hk) as (Hother & Hthis & Hcnt & Hsz).
    destruct (IH (step st (k0, v0)) Hnd) as (IHl & IHc & IHs).
    { intros k v Hkv. rewrite Hother; [apply Hin; by right |].
      intros ->. apply Hk0. apply list_elem_of_fmap. by exists (k0, v). }
    cbn zeta. split_and!; [| cbn [length]; lia | lia].
    intros k. rewrite IHl. cbn [list_to_map foldr uncurry].
    destruct (decide (k = k0)) as [-> | Hne].
    + rewrite lookup_insert_eq.
      cbn [fst] in Hk0.
      apply (not_elem_of_list_to_map_1 (M := gmap string)) in Hk0.
      by rewrite Hk0.
    + rewrite lookup_insert_ne by done.
      destruct (list_to_map l !! k); [done | by apply Hother].
Qed.

(** A pass over a store that is not empty: the store saved once, as the
    specification expects it, and the counts. *)
Lemma refreshAllTokens_nonempty (w : World) :
  file w <> ∅ ->
  let S := refreshed_store token_endpoint (file w) in
  refreshAllTokens token_endpoint w =
  {| world := {| users := S; file := S; saved := saved w ++ [S] |};
     report := Some (size S, (size (file w) - size S)%nat) |} /\
  (size S <= size (file w))%nat.
Proof.
  intros Hne S.
  unfold refreshAllTokens, entries, reload, loadJson, saveJson, set_users.
  cbn [users file saved].
  destruct (Nat.eqb_spec (length (map_to_list (file w))) 0) as [H0 | _].
  { rewrite length_map_to_list in H0. by apply map_size_empty_inv in H0. }
  destruct (foldl_refresh_step (map_to_list (file w))
              {| rs_users := file w; refreshed := 0; deleted := 0 |}) as (Hl & Hc & Hs).
  { apply NoDup_fst_map_to_list. }
  { intros k v Hkv. by apply elem_of_map_to_list. }
  cbn [rs_users refreshed deleted] in Hl, Hc, Hs.
  remember (foldl _ _ _) as st eqn:Hst. clear Hst.
  rewrite length_map_to_list in Hc.
  assert (HS : rs_users st = S).
  { apply map_eq. intros k. rewrite Hl, list_to_map_to_list.
    subst S. unfold refreshed_store. rewrite map_lookup_imap.
    by destruct (file w !! k). }
  rewrite HS in *.
  split; [do 3 f_equal; lia | lia].
Qed.

Lemma refreshAllTokens_empty (w : World) :
  file w = ∅ ->
  refreshAllTokens token_endpoint w = {| world := reload w; report := None |}.
Proof.
  intros He. unfold refreshAllTokens, entries, reload, loadJson.
  cbn [users]. by rewrite He, map_to_list_empty.
Qed.

Lemma refreshed_store_lookup (m : gmap string UserData) (k : string) (v' : UserData) :
  refreshed_store token_endpoint m !! k = Some v' ->
  exists v, m !! k = Some v /\ record k v = Some v'.
Proof.
  unfold refreshed_store. rewrite map_lookup_imap.
  destruct (m !! k) as [v|]; [| done]. cbn. eauto.
Qed.

Lemma refresh_record_Some (k : string) (v v' : UserData) :
  record k v = Some v' ->
  JS.truthy (refresh_token v) = true /\
  JS.truthy (refresh_token v') = true /\
  exists td, token_endpoint k (JS.ToString (refresh_token v)) = Json (Some td) /\
             JS.truthy (td_access_token td) = true /\
             access_token v' = td_access_token td /\
             refresh_token v' = (if JS.truthy (td_refresh_token td)
                                 then td_refresh_token td else refresh_token v).
Proof.
  unfold refresh_record.
  destruct (JS.truthy (refresh_token v)) eqn:Hrt; [| done].
  destruct (token_endpoint k _) as [|[td|]]; [done | | done].
  destruct (JS.truthy (td_access_token td)) eqn:Hat; [| done].
  intros [= <-]. cbn [refresh_token access_token].
  split; [done |]. split; [| by exists td].
  by destruct (JS.truthy (td_refresh_token td)) eqn:Hnew.
Qed.

End RefresherFacts.

(** C5. For every store and every behaviour of the token endpoint, the
    counts a pass reports add up to the number of records the pass
    started from: [refreshed] is the number of records left in the store
    and [deleted] the number of records evicted.  The summary line is
    reached for every store that holds a record; for the empty store the
    pass stops at its guard, with no record to count. *)
Theorem refresh_counts_cover_population
    (token_endpoint : string -> string -> Fetched TokenData) (w : World) :
  let run := refreshAllTokens token_endpoint w in
  match report run with
  | Some (r, d) =>
      (r + d = size (file w))%nat /\
      r = size (file (world run)) /\
      (size (file (world run)) + d = size (file w))%nat
  | None => size (file w) = 0%nat
  end /\
  (report run = None <-> file w = ∅).
Proof.
  destruct (decide (file w = ∅)) as [He | Hne].
  - cbn zeta. rewrite (refreshAllTokens_empty token_endpoint w He). cbn [report].
    split; [by rewrite He | done].
  - cbn zeta.
    destruct (refreshAllTokens_nonempty token_endpoint w Hne) as [-> Hle].
    cbn [report world file].
    split; [lia |]. split; [discriminate | done].
Qed.

(** C6. After a pass, whatever the token endpoint answers, every record
    of the store on file has a refresh token: it is a record that entered
    the pass with one, whose refresh succeeded, and that holds the new
    refresh token when the answer supplied one and the one it had
    otherwise.  A record that entered the pass without a refresh token is
    absent from the store on file, and the pass saves nothing but that
    store. *)
Theorem saved_records_keep_refresh_token
    (token_endpoint : string -> string -> Fetched TokenData) (w : World) :
  let run := refreshAllTokens token_endpoint w in
  (forall k v', file (world run) !! k = Some v' ->
     refresh_token v' <> None /\
     JS.truthy (refresh_token v') = true /\
     exists v td,
       file w !! k = Some v /\
       JS.truthy (refresh_token v) = true /\
       token_endpoint k (JS.ToString (refresh_token v)) = Json (Some td) /\
       access_token v' = td_access_token td /\
       refresh_token v' = (if JS.truthy (td_refresh_token td)
                           then td_refresh_token td else refresh_token v)) /\
  (forall k v, file w !! k = Some v -> JS.truthy (refresh_token v) = false ->
     file (world run) !! k = None) /\
  (forall s, s ∈ saved (world run) -> s ∈ saved w \/ s = file (world run)).
Proof.
  destruct (decide (file w = ∅)) as [He | Hne]; cbn zeta.
  - rewrite (refreshAllTokens_empty token_endpoint w He).
    cbn [world reload file saved]. split_and!.
    + intros k v'. rewrite He. by rewrite lookup_empty.
    + intros k v. rewrite He. by rewrite lookup_empty.
    + intros s Hs. by left.
  - destruct (refreshAllTokens_nonempty token_endpoint w Hne) as [-> _].
    cbn [world file saved]. split_and!.
    + intros k v' Hk.
      destruct (refreshed_store_lookup token_endpoint _ _ _ Hk) as (v & Hv & Hrec).
      destruct (refresh_record_Some token_endpoint _ _ _ Hrec)
        as (Hold & Hnew & td & Hep & Hat & Hacc & Hrt).
      split; [by destruct (refresh_token v') |].
      split; [done |]. by exists v, td.
    + intros k v Hk Hrt. unfold refreshed_store.
      rewrite map_lookup_imap, Hk. cbn. unfold refresh_record. by rewrite Hrt.
    + intros s [Hs | Hs%list_elem_of_singleton]%elem_of_app; [by left | by right].
Qed.

(** C7, as stated, fails on the empty store: the guard of line 162 returns
    before [saveJson] is reached. *)
Lemma empty_pass_saves_nothing :
  saved (world (refreshAllTokens (fun _ _ => Threw) (mkWorld ∅ ∅ []))) = [].
Proof. reflexivity. Qed.

(** C7 (amended). For every store that holds at least one record, a pass
    saves exactly once, after the loop, and what it saves is the store
    with every eviction and every token rotation of the pass applied (a
    record is dropped or rotated as [refresh_record] says); the global
    [users] and the file both hold it afterwards.  For the empty store the
    pass returns at its guard and saves nothing. *)
Theorem pass_saves_once_unless_empty
    (token_endpoint : string -> string -> Fetched TokenData) (w : World) :
  let run := refreshAllTokens token_endpoint w in
  let S := refreshed_store token_endpoint (file w) in
  (file w <> ∅ ->
   saved (world run) = saved w ++ [S] /\
   file (world run) = S /\
   users (world run) = S) /\
  (file w = ∅ ->
   saved (world run) = saved w /\ file (world run) = file w) /\
  (forall k, S !! k = file w !! k ≫= refresh_record token_endpoint k).
Proof.
  cbn zeta. split_and!.
  - intros Hne.
    by destruct (refreshAllTokens_nonempty token_endpoint w Hne) as [-> _].
  - intros He. by rewrite (refreshAllTokens_empty token_endpoint w He).
  - intros k. unfold refreshed_store. by rewrite map_lookup_imap.
Qed.

Lemma pass_saves_once_unless_empty_witness :
  saved (world (refreshAllTokens rotate_access two_users)) =
  [ {["42" := set_access_token (Some "new") fresh_user]} ].
Proof.
  assert (Hne : file two_users <> ∅).
  { intros He. apply (f_equal (fun m => m !! "42")) in He. by vm_compute in He. }
  destruct (pass_saves_once_unless_empty rotate_access two_users) as (Hsave & _).
  destruct (Hsave Hne) as (-> & _).
  by vm_compute.
Defined.

(** ** Page arithmetic *)

Section PageMath.

Variables (pageSize : Z).
Hypothesis pageSize_pos : 0 < pageSize.

Lemma Math_ceil_div_upper (a : Z) : a <= Math_ceil_div a pageSize * pageSize.
Proof.
  unfold Math_ceil_div.
  pose proof (Z.div_mod a pageSize ltac:(lia)) as Hdm.
  pose proof (Z.mod_pos_bound a pageSize pageSize_pos) as Hb.
  destruct (Z.eqb_spec (a mod pageSize) 0); nia.
Qed.

Lemma Math_ceil_div_least (a n : Z) :
  a <= n * pageSize -> Math_ceil_div a pageSize <= n.
Proof.
  unfold Math_ceil_div. intros Hn.
  pose proof (Z.div_mod a pageSize ltac:(lia)) as Hdm.
  pose proof (Z.mod_pos_bound a pageSize pageSize_pos) as Hb.
  destruct (Z.eqb_spec (a mod pageSize) 0); nia.
Qed.

Lemma page_count_spec (total : Z) :
  1 <= page_count pageSize total /\
  total <= page_count pageSize total * pageSize /\
  (forall n, 1 <= n -> total <= n * pageSize -> page_count pageSize total <= n).
Proof.
  unfold page_count.
  pose proof (Math_ceil_div_upper total).
  repeat split; [lia | nia |].
  intros n Hn Hle. pose proof (Math_ceil_div_least total n Hle). lia.
Qed.

End PageMath.

Lemma clamp_page_spec (page pages : Z) :
  1 <= pages ->
  1 <= clamp_page page pages <= pages /\
  (1 <= page <= pages -> clamp_page page pages = page) /\
  (page < 1 -> clamp_page page pages = 1) /\
  (pages < page -> clamp_page page pages = pages).
Proof. unfold clamp_page. lia. Qed.

Lemma length_values (o : gmap string UserData) : length (values o) = size o.
Proof. unfold values. by rewrite length_fmap, length_map_to_list. Qed.

(** C4. For a total of [T] records and a positive page size, the page
    count is the least [n >= 1] with [T <= n * pageSize], that is
    [max(1, ceil(T / pageSize))]; [buildUserlistPage] computes it for
    [PAGE_SIZE] and the size of the store, and renders the requested page
    clamped into [1, pages] for every requested page (below 1 renders page
    1, above [pages] renders the last page), with at most [PAGE_SIZE]
    rows.  In particular 0 records give 1 page, 20 records of page size 20
    give 1 page, 21 give 2, and page 5 of 2 renders page 2. *)
Theorem page_count_and_clamp (T pageSize : Z) (usersObj : gmap string UserData)
    (page : Z) (invoker : string) (now : Z) :
  0 <= T -> 0 < pageSize ->
  let pages := page_count pageSize T in
  let p := buildUserlistPage usersObj page invoker now in
  (1 <= pages /\ T <= pages * pageSize /\
   (forall n, 1 <= n -> T <= n * pageSize -> pages <= n)) /\
  (1 <= clamp_page page pages <= pages /\
   (1 <= page <= pages -> clamp_page page pages = page) /\
   (page < 1 -> clamp_page page pages = 1) /\
   (pages < page -> clamp_page page pages = pages)) /\
  (meta_pages p = page_count PAGE_SIZE (Z.of_nat (size usersObj)) /\
   meta_page p = clamp_page page (meta_pages p) /\
   1 <= meta_page p <= meta_pages p /\
   title_page (embed p) = meta_page p /\
   title_pages (embed p) = meta_pages p /\
   (length (rows (embed p)) <= Z.to_nat PAGE_SIZE)%nat) /\
  (page_count 20 0 = 1 /\ page_count 20 20 = 1 /\ page_count 20 21 = 2 /\
   clamp_page 5 2 = 2).
Proof.
  intros HT Hps pages p.
  pose proof (page_count_spec pageSize Hps T) as Hpc.
  split; [exact Hpc |].
  split; [apply clamp_page_spec; tauto |].
  split; [| by vm_compute].
  assert (Hpages : meta_pages p = page_count PAGE_SIZE (Z.of_nat (size usersObj))).
  { subst p. unfold buildUserlistPage. cbn [meta_pages]. by rewrite length_values. }
  assert (Hpage : meta_page p = clamp_page page (meta_pages p)).
  { rewrite Hpages. subst p. unfold buildUserlistPage. cbn [meta_page].
    by rewrite length_values. }
  pose proof (page_count_spec PAGE_SIZE ltac:(by vm_compute) (Z.of_nat (size usersObj)))
    as (H1 & _ & _).
  pose proof (clamp_page_spec page (meta_pages p)) as Hcl.
  rewrite <- Hpages in H1. specialize (Hcl H1).
  repeat split; try done; try (rewrite Hpage; tauto).
  subst p. unfold buildUserlistPage. cbn [embed rows].
  rewrite length_take. lia.
Qed.

Lemma page_count_and_clamp_witness :
  meta_page (buildUserlistPage (sample_store 21) 5 "42" 1000) = 2 /\
  meta_pages (buildUserlistPage (sample_store 21) 5 "42" 1000) = 2.
Proof.
  pose proof (page_count_and_clamp 21 20 (sample_store 21) 5 "42" 1000
                ltac:(lia) ltac:(lia)) as (_ & _ & (Hpages & Hpage & _) & _).
  assert (Hsz : size (sample_store 21) = 21%nat) by (by vm_compute).
  rewrite Hsz in Hpages.
  split; [rewrite Hpage, Hpages | rewrite Hpages]; by vm_compute.
Defined.

(** ** The batch loop *)

Lemma chunks_nil_iff {A : Type} (l : list A) : chunks l = [] <-> l = [].
Proof. destruct l; simp chunks; split; done. Qed.

Lemma chunks_step {A : Type} (l : list A) :
  l <> [] -> chunks l = take BATCH_SIZE l :: chunks (drop BATCH_SIZE l).
Proof. destruct l; [done |]. intros _. by rewrite chunks_equation_2. Qed.

Lemma schedule_cons (b : list string) (bs : list (list string)) :
  schedule (b :: bs) =
  Started b :: AllSettled b ::
    (if decide (bs = []) then [] else Waited DELAY :: schedule bs).
Proof. by destruct bs. Qed.

Lemma chunks_spec_bounded {A : Type} (n : nat) :
  forall l : list A, (length l <= n)%nat ->
    concat (chunks l) = l /\
    forall j, chunks l !! j =
              if decide (j * BATCH_SIZE < length l)%nat
              then Some (take BATCH_SIZE (drop (j * BATCH_SIZE) l)) else None.
Proof.
  induction n as [|n IH]; intros [|x l'] Hlen;
    try (cbn [length] in Hlen; lia).
  - rewrite chunks_equation_1. split; [done |].
    intros j. by rewrite decide_False by (cbn [length]; lia).
  - rewrite chunks_equation_1. split; [done |].
    intros j. by rewrite decide_False by (cbn [length]; lia).
  - rewrite chunks_equation_2.
    destruct (IH (drop BATCH_SIZE (x :: l'))) as [Hcat Hlook].
    { rewrite length_drop. unfold BATCH_SIZE. cbn [length] in *. lia. }
    split.
    + cbn [concat]. rewrite Hcat. apply take_drop.
    + intros [|j].
      * rewrite decide_True by (cbn [length]; lia). done.
      * rewrite lookup_cons, Hlook, length_drop, drop_drop.
        replace (BATCH_SIZE + j * BATCH_SIZE)%nat with (S j * BATCH_SIZE)%nat by lia.
        repeat case_decide; try done; lia.
Qed.

Lemma chunks_concat {A : Type} (l : list A) : concat (chunks l) = l.
Proof. by apply (chunks_spec_bounded (length l)). Qed.

Lemma chunks_lookup {A : Type} (l : list A) (j : nat) :
  chunks l !! j =
  if decide (j * BATCH_SIZE < length l)%nat
  then Some (take BATCH_SIZE (drop (j * BATCH_SIZE) l)) else None.
Proof. by apply (chunks_spec_bounded (length l)). Qed.

Lemma started_schedule (bs : list (list string)) : started (schedule bs) = bs.
Proof.
  induction bs as [|b bs IH]; [done |].
  rewrite schedule_cons. unfold started in *. cbn [omap list_omap].
  case_decide as Hbs; [by subst | cbn [omap list_omap]; by rewrite IH].
Qed.

Lemma waits_schedule (bs : list (list string)) :
  waits (schedule bs) = pred (length bs).
Proof.
  induction bs as [|b bs IH]; [done |].
  rewrite schedule_cons. unfold waits in *. cbn [List.filter is_wait].
  case_decide as Hbs; [by subst |].
  cbn [List.filter is_wait length]. rewrite IH. by destruct bs.
Qed.

Section DispatcherFacts.

Variable members_endpoint : string -> string -> InviteReply.

Lemma invite_one_total (acc : nat * nat) (e : string * UserData) :
  ((invite_one members_endpoint acc e).1 + (invite_one members_endpoint acc e).2
   = S (acc.1 + acc.2))%nat.
Proof.
  destruct acc as [s f], e as [k u]. unfold invite_one.
  destruct (negb _); [cbn; lia |].
  destruct (members_endpoint _ _); cbn; lia.
Qed.

Lemma foldl_invite_one_total (l : list (string * UserData)) :
  forall acc,
    ((foldl (invite_one members_endpoint) acc l).1 +
     (foldl (invite_one members_endpoint) acc l).2 =
     acc.1 + acc.2 + length l)%nat.
Proof.
  induction l as [|e l IH]; intros acc; cbn [foldl length]; [lia |].
  rewrite IH. pose proof (invite_one_total acc e). lia.
Qed.

(** The loop from index [i] on follows the schedule of the batches of the
    remaining entries, and counts each of them once. *)
Lemma addall_loop_spec (es : list (string * UserData)) (n : nat) :
  forall i st, (length es - i <= n)%nat ->
    let r := addall_loop members_endpoint es i st in
    trace r = trace st ++ schedule (chunks (drop i es.*1)) /\
    (success r + failed r = success st + failed st + (length es - i))%nat.
Proof.
  induction n as [|n IH]; intros i st Hn; cbn zeta; simp addall_loop.
  - destruct (decide (i < length es)%nat) as [Hlt | Hge]; [lia |].
    simp addall_loop. rewrite drop_ge by (rewrite length_fmap; lia).
    simp chunks. rewrite app_nil_r. split; [done | lia].
  - destruct (decide (i < length es)%nat) as [Hlt | Hge]; simp addall_loop.
    + cbn zeta.
      pose proof (foldl_invite_one_total (slice es i (i + BATCH_SIZE))
                    (success st, failed st)) as Hcount.
      destruct (foldl _ _ _) as [s f]. cbn [fst snd] in Hcount.
      assert (Hlen : length (slice es i (i + BATCH_SIZE)) =
                     Nat.min BATCH_SIZE (length es - i)).
      { unfold slice. rewrite length_take, length_drop. lia. }
      assert (Hb : (slice es i (i + BATCH_SIZE)).*1 = take BATCH_SIZE (drop i es.*1)).
      { unfold slice. rewrite fmap_take, fmap_drop. f_equal. lia. }
      rewrite Hb.
      rewrite (chunks_step (drop i es.*1)).
      2:{ intros Hnil. apply (f_equal length) in Hnil.
          rewrite length_drop, length_fmap in Hnil. cbn [length] in Hnil. lia. }
      rewrite schedule_cons, drop_drop.
      destruct (decide (i + BATCH_SIZE < length es)%nat) as [Hmore | Hlast].
      * rewrite decide_False.
        2:{ rewrite chunks_nil_iff. intros Hnil. apply (f_equal length) in Hnil.
            rewrite length_drop, length_fmap in Hnil. cbn [length] in Hnil. lia. }
        match goal with |- context [addall_loop _ _ _ ?st1] =>
          destruct (IH (i + BATCH_SIZE)%nat st1) as [-> ->]
        end.
        { unfold BATCH_SIZE. lia. }
        cbn [trace success failed].
        split; [by rewrite <- !app_assoc | unfold BATCH_SIZE in *; lia].
      * rewrite decide_True.
        2:{ rewrite chunks_nil_iff. apply drop_ge. rewrite length_fmap. lia. }
        match goal with |- context [addall_loop _ _ _ ?st1] =>
          destruct (IH (i + BATCH_SIZE)%nat st1) as [-> ->]
        end.
        { unfold BATCH_SIZE. lia. }
        cbn [trace success failed].
        rewrite (drop_ge es.*1 (i + BATCH_SIZE)) by (rewrite length_fmap; lia).
        rewrite chunks_equation_1. cbn [schedule]. rewrite app_nil_r.
        split; [done | unfold BATCH_SIZE in *; lia].
    + rewrite drop_ge by (rewrite length_fmap; lia).
      simp chunks. rewrite app_nil_r. split; [done | lia].
Qed.

End DispatcherFacts.

(** C8. For every list of entries and every behaviour of the membership
    endpoint, the loop of [/addall] starts the contiguous batches of
    [BATCH_SIZE] entries in order (batch [j] is the slice from
    [j * BATCH_SIZE], the last one possibly smaller and never empty), starts
    a batch only after the previous one has settled as a whole, waits
    [DELAY] between two batches and not after the last, and counts every
    entry once; 13 entries give batches of 5, 5 and 3 and two delays. *)
Theorem dispatch_batches (members_endpoint : string -> string -> InviteReply)
    (es : list (string * UserData)) :
  let run := dispatch members_endpoint es in
  let bs := started (trace run) in
  trace run = schedule bs /\
  concat bs = es.*1 /\
  (forall j, bs !! j =
             if decide (j * BATCH_SIZE < length es)%nat
             then Some (slice es.*1 (j * BATCH_SIZE) (j * BATCH_SIZE + BATCH_SIZE))
             else None) /\
  (forall j b, bs !! j = Some b ->
     length b = Nat.min BATCH_SIZE (length es - j * BATCH_SIZE) /\
     (0 < length b)%nat /\
     (S j < length bs -> length b = BATCH_SIZE)%nat) /\
  waits (trace run) = pred (length bs) /\
  (success run + failed run = length es)%nat /\
  (length es = 13%nat ->
   length <$> bs = [5; 5; 3]%nat /\ waits (trace run) = 2%nat).
Proof.
  cbn zeta. unfold dispatch.
  destruct (addall_loop_spec members_endpoint es (length es) 0
              {| trace := []; success := 0; failed := 0 |} ltac:(lia)) as [Htr Hcnt].
  cbn zeta in Htr, Hcnt. cbn [trace success failed] in Htr, Hcnt.
  rewrite drop_0, app_nil_l in Htr. rewrite Htr, started_schedule.
  assert (Hlook : forall j, chunks es.*1 !! j =
             if decide (j * BATCH_SIZE < length es)%nat
             then Some (slice es.*1 (j * BATCH_SIZE) (j * BATCH_SIZE + BATCH_SIZE))
             else None).
  { intros j. rewrite chunks_lookup, length_fmap. unfold slice.
    by replace (j * BATCH_SIZE + BATCH_SIZE - j * BATCH_SIZE)%nat with BATCH_SIZE by lia. }
  assert (Hsize : forall j b, chunks es.*1 !! j = Some b ->
            length b = Nat.min BATCH_SIZE (length es - j * BATCH_SIZE) /\
            (j * BATCH_SIZE < length es)%nat).
  { intros j b. rewrite Hlook. case_decide; [| done]. intros [= <-].
    unfold slice. rewrite length_take, length_drop, length_fmap. lia. }
  split_and!; try done.
  - apply chunks_concat.
  - intros j b Hj. destruct (Hsize j b Hj) as [Hlen Hlt].
    split_and!; [done | unfold BATCH_SIZE in *; lia |].
    intros Hnext. apply lookup_lt_is_Some_2 in Hnext as [b' Hb'].
    destruct (Hsize _ _ Hb') as [_ Hlt']. unfold BATCH_SIZE in *. lia.
  - apply waits_schedule.
  - lia.
  - intros H13.
    assert (Hsizes : length <$> chunks es.*1 = [5; 5; 3]%nat).
    { apply list_eq. intros j. rewrite list_lookup_fmap, Hlook, H13.
      unfold slice, BATCH_SIZE.
      destruct j as [|[|[|j]]]; cbn [decide]; try (rewrite decide_True by lia);
        try (rewrite decide_False by lia); cbn [fmap option_fmap option_map lookup];
        try done; cbn; f_equal;
        rewrite length_take, length_drop, length_fmap, H13; lia. }
    split; [done |].
    rewrite waits_schedule. apply (f_equal length) in Hsizes.
    rewrite length_fmap in Hsizes. by rewrite Hsizes.
Qed.

Lemma dispatch_batches_witness :
  length <$> started (trace (dispatch (fun _ _ => InviteOk)
                               (map_to_list (sample_store 13)))) = [5; 5; 3]%nat /\
  waits (trace (dispatch (fun _ _ => InviteOk) (map_to_list (sample_store 13)))) = 2%nat.
Proof.
  apply (dispatch_batches (fun _ _ => InviteOk) (map_to_list (sample_store 13))).
  by vm_compute.
Defined.

(** ** The OAuth callback *)

(** C9, as stated, fails when the token exchange fails: the answer is the
    server error 500. *)
Lemma failed_exchange_is_server_error :
  let r := callback (fun _ => Json None) (fun _ => Threw)
             (mkRequest (Some "expired-code") None None) "2026-01-01T00:00:00.000Z"
             (mkWorld ∅ ∅ []) in
  status (fst r) = 500 /\ client_error (fst r) = false.
Proof. by vm_compute. Qed.

(** C9 (amended). For every request to the callback whose code is missing
    or empty, or whose token exchange fails (the endpoint throws or answers
    without an access token, as it does for an invalid code), the store is
    not touched: neither the global [users], nor the file, nor a save.  The
    answer is the client error 400 when the code is missing and the server
    error 500 when the exchange fails. *)
Theorem callback_failure_leaves_store
    (exchange : string -> Fetched TokenData)
    (users_me : TokenData -> Fetched UserInfo)
    (req : Request) (isoNow : string) (w : World) :
  JS.truthy (query_code req) = false \/
  exchange_failed (exchange (JS.ToString (query_code req))) = true ->
  let r := callback exchange users_me req isoNow w in
  snd r = w /\
  status (fst r) = (if JS.truthy (query_code req) then 500 else 400) /\
  client_error (fst r) = negb (JS.truthy (query_code req)).
Proof.
  intros Hfail. cbn zeta. unfold callback.
  destruct (JS.truthy (query_code req)) eqn:Hcode; cbn [negb].
  - destruct Hfail as [? | Hfail]; [done |].
    destruct (exchange _) as [|[td|]]; [done | | done].
    cbn [exchange_failed] in Hfail. by rewrite Hfail.
  - done.
Qed.

Lemma callback_failure_leaves_store_witness :
  snd (callback (fun _ => Threw) (fun _ => Threw) (mkRequest None None None) "t"
         (mkWorld ∅ ∅ [])) = mkWorld ∅ ∅ [] /\
  status (fst (callback (fun _ => Threw) (fun _ => Threw) (mkRequest None None None) "t"
                 (mkWorld ∅ ∅ []))) = 400.
Proof.
  destruct (callback_failure_leaves_store (fun _ => Threw) (fun _ => Threw)
              (mkRequest None None None) "t" (mkWorld ∅ ∅ []))
    as (Hw & Hs & _); [by left |].
  split; [exact Hw | exact Hs].
Defined.

(** ** Malformed button ids *)


(** The time field that is not a number is never older than the TTL. *)
Example nan_time_field_never_expires :
  createdAt (destructure "userlist_next:2:42:abc") = JS.NaN /\
  forall now, ttl_exceeded now JS.NaN = Some false.
Proof. split; [by vm_compute | done]. Qed.


